(** * proc_memory: the target program

    A shallow embedding of [examples/target_program/target_program.cpp]:
    the template [allocate_mem] in its two platform variants and [main],
    run against an explicit model of the process' surroundings (address
    space, byte memory, descriptor table, console, and the operating
    system's answers to the allocation request).

    Conventions.
    - [size_t], pointers and [uint64_t] are 64-bit; they are carried as [Z]
      and reduced modulo [2^64] where the source converts a value.
    - The operating system is a black box: the world carries its decisions
      ([place], [openable]) and the primitives below only fix what the
      platform interface fixes (return value on failure, which bytes become
      accessible on success).
    - Dereferencing a pointer whose bytes are not accessible is undefined
      behaviour in C++; the model stops the run there with [Fault].
    - The operands of a chain of [<<] are evaluated left to right, so the
      cell is read after the pointer and the separator are printed. *)

From Stdlib Require Import ZArith List String Ascii Bool Lia.
From stdpp Require Import base gmap strings list.

Local Open Scope Z_scope.

(** ** Platform constants (from the system headers the source includes) *)

Module Win32.
(** [winnt.h] / [minwindef.h] *)
Definition MEM_COMMIT : Z := 0x00001000.
Definition PAGE_READONLY : Z := 0x02.
Definition PAGE_READWRITE : Z := 0x04.
Definition PAGE_EXECUTE_READ : Z := 0x20.
Definition PAGE_EXECUTE_READWRITE : Z := 0x40.
Definition NULL : Z := 0.
End Win32.

Module Posix.
(** [sys/mman.h], [fcntl.h] *)
Definition PROT_READ : Z := 0x1.
Definition PROT_WRITE : Z := 0x2.
Definition MAP_SHARED : Z := 0x01.
Definition MAP_PRIVATE : Z := 0x02.
Definition MAP_FIXED : Z := 0x10.
Definition O_RDWR : Z := 2.
(** [MAP_FAILED] is the pointer value -1, here as a 64-bit address *)
Definition MAP_FAILED : Z := (-1) mod 2 ^ 64.
End Posix.

(** [std::char_traits<char>::eof()] *)
Definition EOF : Z := -1.

(** ** Data model *)

(** The two arms of [#ifdef _WIN32 ... #else ... #endif]. *)
Inductive platform := Windows | POSIX.

(** The type parameter [T] of the template, as far as the code looks at it:
    through [sizeof(T)]. *)
Inductive ctype := uint8_t | uint16_t | uint32_t | uint64_t.

Definition sizeof (T : ctype) : Z :=
  match T with
  | uint8_t => 1
  | uint16_t => 2
  | uint32_t => 4
  | uint64_t => 8
  end.

(** Conversion of an integer to an unsigned type of [sizeof T] bytes. *)
Definition wrap (T : ctype) (v : Z) : Z := v mod 2 ^ (8 * sizeof T).

(** [size_t] on the 64-bit targets of the two variants. *)
Definition to_size_t (v : Z) : Z := v mod 2 ^ 64.

(** A run of accessible bytes of the address space. *)
Record region := Region {
  r_base : Z;
  r_len : Z;
  r_read : bool;
  r_write : bool
}.

(** An open file description. *)
Record file := File {
  f_path : string;
  f_flags : Z
}.

(** What happens while the program is blocked in [std::cin.get()]: another
    process may overwrite bytes of this one ([poke], address and value), and
    then a character arrives ([key]). *)
Record pause := Pause {
  poke : list (Z * Z);
  key : Z
}.

(** Calls into the operating system, with their arguments in the order of
    the C prototypes. *)
Inductive syscall :=
| SysVirtualAlloc (lpAddress dwSize flAllocationType flProtect : Z)
| SysOpen (pathname : string) (oflag : Z)
| SysMmap (addr length prot flags fd offset : Z).

Record World := Mk_World {
  vm : list region;                              (* accessible address space *)
  mem : gmap Z Z;                                (* byte contents, 0 if absent *)
  fdt : list (option file);                      (* descriptor table, by number *)
  stdin : list pause;                            (* the console, pause by pause *)
  place : list region -> syscall -> option Z;    (* OS: where a request lands *)
  openable : string -> Z -> bool                 (* OS: may this path be opened *)
}.

Definition set_vm (w : World) (v : list region) : World :=
  Mk_World v (mem w) (fdt w) (stdin w) (place w) (openable w).
Definition set_mem (w : World) (m : gmap Z Z) : World :=
  Mk_World (vm w) m (fdt w) (stdin w) (place w) (openable w).
Definition set_fdt (w : World) (t : list (option file)) : World :=
  Mk_World (vm w) (mem w) t (stdin w) (place w) (openable w).
Definition set_stdin (w : World) (i : list pause) : World :=
  Mk_World (vm w) (mem w) (fdt w) i (place w) (openable w).

(** What [operator<<] is given. *)
Inductive output :=
| OutPtr (p : Z)
| OutStr (s : string)
| OutU64 (v : Z)
| OutChar (c : ascii).

(** What a run does, in order. [EvStore] and [EvLoad] record the access the
    program attempts, also when it faults. *)
Inductive event :=
| EvCall (c : syscall) (r : Z)
| EvStore (p : Z) (T : ctype) (v : Z)
| EvLoad (p : Z) (T : ctype) (v : Z)
| EvOut (o : output)
| EvGet (c : Z).

(** ** The monad of the program: state, trace and fault *)

Inductive outcome (A : Type) :=
| Done (a : A)
| Fault (p : Z).
Arguments Done {A} a.
Arguments Fault {A} p.

Record run (A : Type) := Run {
  events : list event;
  result : outcome A;
  after : World
}.
Arguments Run {A} _ _ _.
Arguments events {A} _.
Arguments result {A} _.
Arguments after {A} _.

Definition M (A : Type) : Type := World -> run A.

Definition ret {A} (a : A) : M A := fun w => Run [] (Done a) w.

Definition bind {A B} (m : M A) (f : A -> M B) : M B := fun w =>
  match m w with
  | Run e (Done a) w' =>
      match f a w' with
      | Run e' o w'' => Run (e ++ e') o w''
      end
  | Run e (Fault p) w' => Run e (Fault p) w'
  end.

(** The program is written with stdpp's monad notation:
    [x ← m; k] and [m;; k]. *)
#[global] Instance M_ret : MRet M := @ret.
#[global] Instance M_bind : MBind M := fun A B f m => bind m f.

(** ** Memory *)

Definition in_region (r : region) (a : Z) : bool :=
  (r_base r <=? a) && (a <? r_base r + r_len r).

Definition readable_at (v : list region) (a : Z) : bool :=
  existsb (fun r => r_read r && in_region r a) v.

Definition writable_at (v : list region) (a : Z) : bool :=
  existsb (fun r => r_write r && in_region r a) v.

Definition can_read (v : list region) (p n : Z) : bool :=
  forallb (readable_at v) (seqZ p n).

Definition can_write (v : list region) (p n : Z) : bool :=
  forallb (writable_at v) (seqZ p n).

Definition byte_at (m : gmap Z Z) (a : Z) : Z := default 0 (m !! a).

(** Little-endian bytes of a value, and back. *)
Fixpoint le_bytes (n : nat) (v : Z) : list Z :=
  match n with
  | O => []
  | S n' => v mod 256 :: le_bytes n' (v / 256)
  end.

Fixpoint le_value (bs : list Z) : Z :=
  match bs with
  | [] => 0
  | b :: bs' => b + 256 * le_value bs'
  end.

Fixpoint write_bytes (m : gmap Z Z) (a : Z) (bs : list Z) : gmap Z Z :=
  match bs with
  | [] => m
  | b :: bs' => write_bytes (<[a := b]> m) (a + 1) bs'
  end.

Fixpoint read_bytes (m : gmap Z Z) (a : Z) (n : nat) : list Z :=
  match n with
  | O => []
  | S n' => byte_at m a :: read_bytes m (a + 1) n'
  end.

Definition apply_pokes (ps : list (Z * Z)) (m : gmap Z Z) : gmap Z Z :=
  fold_left (fun m' ab => <[fst ab := snd ab mod 256]> m') ps m.

(** The object of type [T] at [p]: its bytes written, and read back. *)
Definition put (T : ctype) (m : gmap Z Z) (p v : Z) : gmap Z Z :=
  write_bytes m p (le_bytes (Z.to_nat (sizeof T)) v).

Definition peek (T : ctype) (m : gmap Z Z) (p : Z) : Z :=
  le_value (read_bytes m p (Z.to_nat (sizeof T))).

(** [*p = v] for [T* p]. *)
Definition store (T : ctype) (p v : Z) : M unit := fun w =>
  if can_write (vm w) p (sizeof T)
  then Run [EvStore p T v] (Done tt) (set_mem w (put T (mem w) p v))
  else Run [EvStore p T v] (Fault p) w.

(** [*p] as an rvalue, for [T* p]. *)
Definition load (T : ctype) (p : Z) : M Z := fun w =>
  if can_read (vm w) p (sizeof T)
  then Run [EvLoad p T (peek T (mem w) p)] (Done (peek T (mem w) p)) w
  else Run [EvLoad p T 0] (Fault p) w.

(** ** Console *)

Definition cout (o : output) : M unit := fun w => Run [EvOut o] (Done tt) w.

(** The character the next read gets, and the pokes that come before it. *)
Definition key_of (i : list pause) : Z :=
  match i with
  | [] => EOF
  | p :: _ => key p
  end.

Definition pokes_of (i : list pause) : list (Z * Z) :=
  match i with
  | [] => []
  | p :: _ => poke p
  end.

(** [std::cin.get()]: blocks for one character; [EOF] once the input is
    used up. *)
Definition cin_get : M Z := fun w =>
  Run [EvGet (key_of (stdin w))] (Done (key_of (stdin w)))
      (set_stdin (set_mem w (apply_pokes (pokes_of (stdin w)) (mem w)))
                 (tail (stdin w))).

Definition LF : ascii := ascii_of_nat 10.
Definition endl (s : string) : string := (s ++ String LF EmptyString)%string.

(** ** The operating system's primitives *)

Definition has_flag (x f : Z) : bool := negb (Z.land x f =? 0).

(** Access that a [flProtect] constant gives to the committed pages. *)
Definition win_readable (fl : Z) : bool :=
  (fl =? Win32.PAGE_READONLY) || (fl =? Win32.PAGE_READWRITE)
  || (fl =? Win32.PAGE_EXECUTE_READ) || (fl =? Win32.PAGE_EXECUTE_READWRITE).

Definition win_writable (fl : Z) : bool :=
  (fl =? Win32.PAGE_READWRITE) || (fl =? Win32.PAGE_EXECUTE_READWRITE).

(** [VirtualAlloc]: the base address of the allocated region, or [NULL]. *)
Definition VirtualAlloc (lpAddress dwSize flAllocationType flProtect : Z) : M Z :=
  fun w =>
    let c := SysVirtualAlloc lpAddress dwSize flAllocationType flProtect in
    match place w (vm w) c with
    | Some b =>
        Run [EvCall c b] (Done b)
            (set_vm w (Region b dwSize (win_readable flProtect)
                              (win_writable flProtect) :: vm w))
    | None => Run [EvCall c Win32.NULL] (Done Win32.NULL) w
    end.

(** The lowest free slot of the descriptor table takes the new file. *)
Fixpoint fd_alloc (t : list (option file)) (f : file) : nat * list (option file) :=
  match t with
  | [] => (O, [Some f])
  | None :: t' => (O, Some f :: t')
  | Some g :: t' =>
      let r := fd_alloc t' f in (S (fst r), Some g :: snd r)
  end.

(** [open]: a new descriptor, or -1. *)
Definition open (pathname : string) (oflag : Z) : M Z := fun w =>
  let c := SysOpen pathname oflag in
  if openable w pathname oflag
  then
    let r := fd_alloc (fdt w) (File pathname oflag) in
    Run [EvCall c (Z.of_nat (fst r))] (Done (Z.of_nat (fst r)))
        (set_fdt w (snd r))
  else Run [EvCall c (-1)] (Done (-1)) w.

(** [mmap]: the address of the new mapping, or [MAP_FAILED]. With
    [MAP_FIXED] the mapping is at [addr] or the call fails; without it the
    system is free to choose. *)
Definition mmap (addr length prot flags fd offset : Z) : M Z := fun w =>
  let c := SysMmap addr length prot flags fd offset in
  match place w (vm w) c with
  | Some b =>
      if has_flag flags Posix.MAP_FIXED && negb (b =? addr)
      then Run [EvCall c Posix.MAP_FAILED] (Done Posix.MAP_FAILED) w
      else
        Run [EvCall c b] (Done b)
            (set_vm w (Region b length (has_flag prot Posix.PROT_READ)
                              (has_flag prot Posix.PROT_WRITE) :: vm w))
  | None => Run [EvCall c Posix.MAP_FAILED] (Done Posix.MAP_FAILED) w
  end.

(** ** The program *)

(** [template<typename T> T* allocate_mem(size_t address)], [_WIN32] arm.
    The casts between [size_t], [LPVOID] and [T*] keep the 64-bit value. *)
Definition allocate_mem_windows (T : ctype) (address : Z) : M Z :=
  pointer ← VirtualAlloc address (sizeof T) Win32.MEM_COMMIT Win32.PAGE_READWRITE;
  mret pointer.

(** The [#else] arm. The argument [open("/dev/null", O_RDWR)] is evaluated
    before [mmap] is entered; the pointer [mmap] returns is returned as it
    is, read as a [T*]. *)
Definition allocate_mem_posix (T : ctype) (address : Z) : M Z :=
  fd ← open "/dev/null" Posix.O_RDWR;
  mmap address (sizeof T) (Z.lor Posix.PROT_WRITE Posix.PROT_READ) 0 fd 0.

Definition allocate_mem (pf : platform) (T : ctype) (address : Z) : M Z :=
  match pf with
  | Windows => allocate_mem_windows T address
  | POSIX => allocate_mem_posix T address
  end.

(** [int main(int argc, char** argv)] *)
Definition main (pf : platform) (argc : Z) (argv : list string) : M Z :=
  let addr := to_size_t 0x00007FF49E872000 in
  number ← allocate_mem pf uint64_t addr;
  store uint64_t number 42;;
  cout (OutPtr number);;
  cout (OutStr " - ");;
  v ← load uint64_t number;
  cout (OutU64 v);;
  cout (OutChar LF);;
  cout (OutStr (endl "Press ENTER to update value"));;
  cin_get;;
  cout (OutPtr number);;
  cout (OutStr " - ");;
  v ← load uint64_t number;
  cout (OutU64 v);;
  cout (OutChar LF);;
  cout (OutStr (endl "Press ENTER to exit"));;
  cin_get;;
  mret 0.

(** ** Observations on a run *)

(** The failure value of each variant's allocation primitive. *)
Definition sentinel (pf : platform) : Z :=
  match pf with
  | Windows => Win32.NULL
  | POSIX => Posix.MAP_FAILED
  end.

(** A request for memory as the operating system sees it. *)
Record request := Request {
  q_addr : Z;
  q_size : Z;
  q_read : bool;
  q_write : bool
}.

Definition request_of (c : syscall) : option request :=
  match c with
  | SysVirtualAlloc a n _ fl => Some (Request a n (win_readable fl) (win_writable fl))
  | SysMmap a n prot _ _ _ =>
      Some (Request a n (has_flag prot Posix.PROT_READ) (has_flag prot Posix.PROT_WRITE))
  | SysOpen _ _ => None
  end.

Definition requests (evs : list event) : list request :=
  omap (fun e => match e with EvCall c _ => request_of c | _ => None end) evs.

Definition mmap_flags (evs : list event) : list Z :=
  omap (fun e => match e with
                 | EvCall (SysMmap _ _ _ fl _ _) _ => Some fl
                 | _ => None
                 end) evs.

Definition mmap_fds (evs : list event) : list Z :=
  omap (fun e => match e with
                 | EvCall (SysMmap _ _ _ _ fd _) _ => Some fd
                 | _ => None
                 end) evs.

Definition outputs (evs : list event) : list output :=
  omap (fun e => match e with EvOut o => Some o | _ => None end) evs.

Definition loads (evs : list event) : list (Z * Z) :=
  omap (fun e => match e with EvLoad p _ v => Some (p, v) | _ => None end) evs.

Definition stores (evs : list event) : list (Z * Z) :=
  omap (fun e => match e with EvStore p _ v => Some (p, v) | _ => None end) evs.

(** The characters the run read from the console. *)
Definition gets (evs : list event) : list Z :=
  omap (fun e => match e with EvGet c => Some c | _ => None end) evs.

(** How often the run blocks on the console. *)
Definition count_gets (evs : list event) : nat := length (gets evs).

(** The descriptor [open("/dev/null", O_RDWR)] yields in a world. *)
Definition devnull : file := File "/dev/null" Posix.O_RDWR.

Definition devnull_fd (w : World) : Z :=
  if openable w "/dev/null" Posix.O_RDWR
  then Z.of_nat (fst (fd_alloc (fdt w) devnull))
  else -1.

(** The request for memory [allocate_mem] makes in a world (that it is the
    call made is lemma [allocate_mem_events]), and the system's answer to
    it: the base of the granted bytes, or [None] when it declines. *)
Definition issued (pf : platform) (T : ctype) (address : Z) (w : World) : syscall :=
  match pf with
  | Windows =>
      SysVirtualAlloc address (sizeof T) Win32.MEM_COMMIT Win32.PAGE_READWRITE
  | POSIX =>
      SysMmap address (sizeof T) (Z.lor Posix.PROT_WRITE Posix.PROT_READ) 0
              (devnull_fd w) 0
  end.

Definition answer (pf : platform) (T : ctype) (address : Z) (w : World) : option Z :=
  place w (vm w) (issued pf T address w).

(** What [allocate_mem] does before it asks for memory. *)
Definition opening (pf : platform) (w : World) : list event :=
  match pf with
  | Windows => []
  | POSIX => [EvCall (SysOpen "/dev/null" Posix.O_RDWR) (devnull_fd w)]
  end.

(** Open descriptors of a table. *)
Definition open_count (t : list (option file)) : nat := length (omap id t).

(** Pages of size [page] that the bytes [addr .. addr + len - 1] touch. *)
Definition pages_spanned (page addr len : Z) : Z :=
  (addr + len - 1) / page - addr / page + 1.

(** The events of one
    [std::cout << number << " - " << *number << '\n'] that reads [v]. *)
Definition report (number v : Z) : list event :=
  [EvOut (OutPtr number); EvOut (OutStr " - "); EvLoad number uint64_t v;
   EvOut (OutU64 v); EvOut (OutChar LF)].

Definition prompt_update : event := EvOut (OutStr (endl "Press ENTER to update value")).
Definition prompt_exit : event := EvOut (OutStr (endl "Press ENTER to exit")).

(** ** Sample worlds *)

Definition tty : file := File "/dev/tty" Posix.O_RDWR.

(** A system that grants every request where it is asked. *)
Definition generous (v : list region) (c : syscall) : option Z :=
  match c with
  | SysVirtualAlloc a _ _ _ => Some a
  | SysMmap a _ _ _ _ _ => Some a
  | SysOpen _ _ => None
  end.

(** A system that grants nothing. *)
Definition stingy (v : list region) (c : syscall) : option Z := None.

Definition enter : Z := 10.

Definition world_ok : World :=
  Mk_World [] ∅ [Some tty; Some tty; Some tty]
           [Pause [] enter; Pause [] enter] generous (fun _ _ => true).

Definition world_denied : World :=
  Mk_World [] ∅ [Some tty; Some tty; Some tty]
           [Pause [] enter; Pause [] enter] stingy (fun _ _ => true).


(** A system that grants the request, but at an address of its own. *)
Definition elsewhere (v : list region) (c : syscall) : option Z := Some 0x10000.

Definition world_moved : World :=
  Mk_World [] ∅ [Some tty; Some tty; Some tty]
           [Pause [] enter; Pause [] enter] elsewhere (fun _ _ => true).

(** Another process rewrites the cell to 7 during the first pause. *)
Definition world_poked : World :=
  Mk_World [] ∅ [Some tty; Some tty; Some tty]
           [Pause [(0x00007FF49E872000, 7)] enter; Pause [] enter]
           generous (fun _ _ => true).

(** ** Inputs and callers used in the further properties *)

(** The pokes by which another process writes the bytes [bs] from address
    [a] on, and those by which it writes the value [x] of type [T] at [p]. *)
Fixpoint pokes_at (a : Z) (bs : list Z) : list (Z * Z) :=
  match bs with
  | [] => []
  | b :: bs' => (a, b) :: pokes_at (a + 1) bs'
  end.

Definition overwrite (T : ctype) (p x : Z) : list (Z * Z) :=
  pokes_at p (le_bytes (Z.to_nat (sizeof T)) x).

(** Pokes that all miss the [n] bytes at [p]. *)
Definition misses (p n : Z) (ps : list (Z * Z)) : bool :=
  forallb (fun ab => (fst ab <? p) || (p + n <=? fst ab)) ps.

(** The same console with other characters typed. *)
Definition rekey (f : Z -> Z) (i : list pause) : list pause :=
  map (fun q => Pause (poke q) (f (key q))) i.

(** No region reaches past the end of the 64-bit address space. *)
Definition within_address_space (v : list region) : bool :=
  forallb (fun r => r_base r + r_len r <=? 2 ^ 64) v.


(** A process with some memory mapped, on a system that grants nothing. *)
Definition world_denied_mapped : World :=
  Mk_World [Region 0x400000 0x1000 true true] ∅ [Some tty; Some tty; Some tty]
           [Pause [] enter; Pause [] enter] stingy (fun _ _ => true).

(** A system without a null device that can be opened. *)
Definition world_no_devnull : World :=
  Mk_World [] ∅ [Some tty; Some tty; Some tty]
           [Pause [] enter; Pause [] enter] generous (fun _ _ => false).

(** Another process writes 1000 into the cell during the first pause and
    a byte elsewhere during the second. *)
Definition world_rewritten : World :=
  Mk_World [] ∅ [Some tty; Some tty; Some tty]
           [Pause ((5, 1) :: overwrite uint64_t 0x00007FF49E872000 1000) enter;
            Pause [(6, 2)] enter]
           generous (fun _ _ => true).

(** Another process writes next to the cell during the first pause. *)
Definition world_nearby : World :=
  Mk_World [] ∅ [Some tty; Some tty; Some tty]
           [Pause [(0x00007FF49E872008, 255); (0x00007FF49E871FFF, 9)] enter]
           generous (fun _ _ => true).

(** The console is at its end from the start. *)
Definition world_eof : World :=
  Mk_World [] ∅ [Some tty; Some tty; Some tty] [] generous (fun _ _ => true).

(** * Lemmas *)

(** ** Bytes and accessibility *)

Section Memory.
Implicit Types (m : gmap Z Z) (v : list region).

Lemma le_value_le_bytes n x : le_value (le_bytes n x) = x mod 256 ^ Z.of_nat n.
Proof.
  revert x. induction n as [|n IH]; intros x.
  - simpl. now rewrite Z.mod_1_r.
  - cbn [le_bytes le_value]. rewrite IH.
    rewrite Nat2Z.inj_succ, Z.pow_succ_r by lia.
    rewrite Z.rem_mul_r by lia. reflexivity.
Qed.

Lemma length_le_bytes n x : length (le_bytes n x) = n.
Proof. revert x. induction n; intros; simpl; congruence. Qed.

Lemma byte_at_write_below m a bs a' :
  a' < a -> byte_at (write_bytes m a bs) a' = byte_at m a'.
Proof.
  revert m a. induction bs as [|b bs IH]; intros m a Hlt; [reflexivity|].
  cbn [write_bytes]. rewrite IH by lia.
  unfold byte_at. rewrite lookup_insert_ne by lia. reflexivity.
Qed.

Lemma read_write_bytes m a bs :
  read_bytes (write_bytes m a bs) a (length bs) = bs.
Proof.
  revert m a. induction bs as [|b bs IH]; intros m a; [reflexivity|].
  cbn [write_bytes read_bytes length]. rewrite IH. f_equal.
  rewrite byte_at_write_below by lia.
  unfold byte_at. now rewrite lookup_insert_eq.
Qed.

(** What is written to an object is what is read from it, as a value of
    its type. *)
Lemma peek_put T m p x : peek T (put T m p x) p = wrap T x.
Proof.
  unfold peek, put, wrap.
  rewrite <- (length_le_bytes (Z.to_nat (sizeof T)) x) at 2.
  rewrite read_write_bytes, le_value_le_bytes.
  destruct T; reflexivity.
Qed.

Lemma in_region_own b n r w a :
  b <= a < b + n -> in_region (Region b n r w) a = true.
Proof.
  intros H. unfold in_region. cbn.
  apply andb_true_intro. split; [apply Z.leb_le | apply Z.ltb_lt]; lia.
Qed.

Lemma can_write_granted v b n r :
  can_write (Region b n r true :: v) b n = true.
Proof.
  unfold can_write. apply forallb_forall. intros a Ha.
  apply list_elem_of_In, elem_of_seqZ in Ha.
  unfold writable_at. cbn [existsb r_write].
  rewrite in_region_own by lia. reflexivity.
Qed.

Lemma can_read_granted v b n w :
  can_read (Region b n true w :: v) b n = true.
Proof.
  unfold can_read. apply forallb_forall. intros a Ha.
  apply list_elem_of_In, elem_of_seqZ in Ha.
  unfold readable_at. cbn [existsb r_read].
  rewrite in_region_own by lia. reflexivity.
Qed.

(** With nothing mapped, every access of at least one byte faults. *)
Lemma can_write_nowhere p n : 0 < n -> can_write [] p n = false.
Proof.
  intros Hn. unfold can_write.
  destruct (forallb (writable_at []) (seqZ p n)) eqn:E; [|reflexivity].
  rewrite forallb_forall in E.
  specialize (E p). cbn in E. symmetry. apply E.
  apply list_elem_of_In, elem_of_seqZ. lia.
Qed.
End Memory.

(** ** Pages *)

Lemma pages_spanned_one page a n :
  0 < page -> 0 < n -> a mod page + n <= page ->
  (a + n - 1) / page = a / page /\ pages_spanned page a n = 1.
Proof.
  intros Hp Hn Hfit.
  assert ((a + n - 1) / page = a / page) as E.
  { symmetry. apply Z.div_unique with (r := a mod page + n - 1).
    - left. pose proof (Z.mod_pos_bound a page Hp). lia.
    - pose proof (Z.div_mod a page). lia. }
  split; [exact E|]. unfold pages_spanned. lia.
Qed.

(** An object at an address aligned to its size does not cross a page
    boundary when the page size is a multiple of that size. *)
Lemma aligned_fits page a n :
  0 < n -> 0 < page -> (n | a) -> (n | page) -> a mod page + n <= page.
Proof.
  intros Hn Hp [k ->] [j ->].
  assert (0 < j) by nia.
  rewrite Z.mul_mod_distr_r by lia.
  pose proof (Z.mod_pos_bound k j ltac:(lia)). nia.
Qed.

(** ** The descriptor table *)

Section Descriptors.
Implicit Types (t : list (option file)) (f g : file).

Lemma fd_alloc_installed t f :
  snd (fd_alloc t f) !! fst (fd_alloc t f) = Some (Some f).
Proof. induction t as [|[g|] t IH]; cbn; auto. Qed.

Lemma fd_alloc_free t f g : t !! fst (fd_alloc t f) <> Some (Some g).
Proof. induction t as [|[g'|] t IH]; cbn; [discriminate|exact IH|discriminate]. Qed.

Lemma fd_alloc_count t f :
  open_count (snd (fd_alloc t f)) = S (open_count t).
Proof.
  unfold open_count.
  induction t as [|[g|] t IH]; cbn; [reflexivity| |reflexivity].
  f_equal. exact IH.
Qed.

Lemma fd_alloc_keeps t f n g :
  t !! n = Some (Some g) -> snd (fd_alloc t f) !! n = Some (Some g).
Proof.
  revert n. induction t as [|[g'|] t IH]; intros n; cbn.
  - discriminate.
  - destruct n; cbn; [auto|apply IH].
  - destruct n; cbn; [discriminate|auto].
Qed.

(** The new descriptor is the lowest free one. *)
Lemma fd_alloc_lowest t f n :
  (n < fst (fd_alloc t f))%nat -> exists g, t !! n = Some (Some g).
Proof.
  revert n. induction t as [|[g'|] t IH]; intros n; cbn; [lia| |lia].
  destruct n; cbn; [eauto|]. intros H. apply IH. lia.
Qed.
End Descriptors.

(** ** Sequencing *)

Section Bind.
Context {A B : Type} (m : M A) (f : A -> M B) (w : World).

Lemma bind_done e a w' :
  m w = Run e (Done a) w' ->
  (m ≫= f) w = Run (e ++ events (f a w')) (result (f a w')) (after (f a w')).
Proof.
  intros H. unfold mbind, M_bind, bind. rewrite H.
  destruct (f a w'); reflexivity.
Qed.

Lemma bind_fault e p w' :
  m w = Run e (Fault p) w' -> (m ≫= f) w = Run e (Fault p) w'.
Proof. intros H. unfold mbind, M_bind, bind. rewrite H. reflexivity. Qed.

Lemma events_bind_done a :
  result (m w) = Done a ->
  events ((m ≫= f) w) = events (m w) ++ events (f a (after (m w))).
Proof.
  destruct (m w) as [e o w'] eqn:E. cbn. intros ->.
  rewrite (bind_done _ _ _ E). reflexivity.
Qed.

Lemma events_bind : exists rest, events ((m ≫= f) w) = events (m w) ++ rest.
Proof.
  destruct (m w) as [e [a|p] w'] eqn:E.
  - rewrite (bind_done _ _ _ E). cbn. eauto.
  - rewrite (bind_fault _ _ _ E). cbn. exists []. now rewrite app_nil_r.
Qed.
End Bind.

#[local] Arguments put : simpl never.
#[local] Arguments peek : simpl never.
#[local] Arguments can_read : simpl never.
#[local] Arguments can_write : simpl never.
#[local] Arguments apply_pokes : simpl never.
#[local] Arguments fd_alloc : simpl never.
#[local] Arguments to_size_t : simpl never.
#[local] Arguments key_of : simpl never.
#[local] Arguments pokes_of : simpl never.
#[local] Arguments endl : simpl never.
#[local] Arguments sizeof : simpl never.
#[local] Arguments Z.lor : simpl never.

Ltac unfold_prog :=
  unfold main, allocate_mem, allocate_mem_windows, allocate_mem_posix,
    VirtualAlloc, mmap, open, store, load, cout, cin_get;
  unfold mbind, mret, M_bind, M_ret, bind, ret.

(** ** Store, then load *)

(** Writing [x] through a pointer to accessible bytes and reading through
    it at once gives [x] back (as a value of the type). *)
Lemma store_load T p x w :
  can_write (vm w) p (sizeof T) = true ->
  can_read (vm w) p (sizeof T) = true ->
  (store T p x ≫= fun _ => load T p) w =
    Run [EvStore p T x; EvLoad p T (wrap T x)] (Done (wrap T x))
        (set_mem w (put T (mem w) p x)).
Proof.
  intros Hw Hr. unfold_prog. rewrite Hw. cbn. rewrite Hr, peek_put. reflexivity.
Qed.

(** ** The allocator *)

Lemma main_addr_eq : to_size_t 0x00007FF49E872000 = 0x00007FF49E872000.
Proof. reflexivity. Qed.

Lemma allocate_mem_events pf T address w :
  exists ret,
    result (allocate_mem pf T address w) = Done ret /\
    events (allocate_mem pf T address w) =
      opening pf w ++ [EvCall (issued pf T address w) ret].
Proof.
  unfold issued, opening, devnull_fd, devnull. unfold_prog.
  destruct pf; cbn.
  - destruct (place w (vm w) _); cbn; eauto.
  - destruct (openable w "/dev/null" Posix.O_RDWR); cbn;
      destruct (place w (vm w) _); cbn; eauto.
Qed.

Lemma allocate_mem_granted pf T address w h :
  answer pf T address w = Some h ->
  result (allocate_mem pf T address w) = Done h /\
  vm (after (allocate_mem pf T address w)) =
    Region h (sizeof T) true true :: vm w /\
  mem (after (allocate_mem pf T address w)) = mem w /\
  stdin (after (allocate_mem pf T address w)) = stdin w.
Proof.
  unfold answer, issued, devnull_fd, devnull. unfold_prog. intros H.
  destruct pf; cbn.
  - rewrite H. cbn. auto.
  - destruct (openable w "/dev/null" Posix.O_RDWR); cbn; rewrite H; cbn; auto.
Qed.

Lemma allocate_mem_denied pf T address w :
  answer pf T address w = None ->
  result (allocate_mem pf T address w) = Done (sentinel pf) /\
  vm (after (allocate_mem pf T address w)) = vm w /\
  mem (after (allocate_mem pf T address w)) = mem w /\
  stdin (after (allocate_mem pf T address w)) = stdin w.
Proof.
  unfold answer, issued, devnull_fd, devnull. unfold_prog. intros H.
  destruct pf; cbn.
  - rewrite H. cbn. auto.
  - destruct (openable w "/dev/null" Posix.O_RDWR); cbn; rewrite H; cbn; auto.
Qed.

(** The allocator returns what the system answers, and its failure value
    when the system declines. *)
Lemma allocate_mem_result pf T address w :
  result (allocate_mem pf T address w) =
    Done (default (sentinel pf) (answer pf T address w)).
Proof.
  destruct (answer pf T address w) as [h|] eqn:H; cbn.
  - apply (allocate_mem_granted _ _ _ _ _ H).
  - apply (allocate_mem_denied _ _ _ _ H).
Qed.

(** The allocator's part of a trace, seen through each observation. *)
Lemma allocate_mem_observed pf T address w :
  let evs := events (allocate_mem pf T address w) in
  requests evs = [Request address (sizeof T) true true] /\
  outputs evs = [] /\ loads evs = [] /\ stores evs = [] /\ gets evs = [].
Proof.
  destruct (allocate_mem_events pf T address w) as (ret & _ & E).
  cbn zeta. rewrite E. destruct pf; repeat split; reflexivity.
Qed.

Lemma allocate_mem_posix_observed T address w :
  let evs := events (allocate_mem POSIX T address w) in
  mmap_flags evs = [0] /\ mmap_fds evs = [devnull_fd w].
Proof.
  destruct (allocate_mem_events POSIX T address w) as (ret & _ & E).
  cbn zeta. rewrite E. split; reflexivity.
Qed.

(** Allocation, store and load in a row, for every type, address and
    value: a granted allocation reads back what was written. *)
Lemma allocate_store_load pf T address x w h :
  answer pf T address w = Some h ->
  result ((allocate_mem pf T address ≫= fun p =>
           store T p x ≫= fun _ => load T p) w) = Done (wrap T x).
Proof.
  intros H.
  destruct (allocate_mem_granted _ _ _ _ _ H) as (Hr & Hvm & _).
  destruct (allocate_mem pf T address w) as [e o w1] eqn:E.
  cbn in Hr, Hvm. subst o.
  rewrite (bind_done _ _ _ _ _ _ E).
  rewrite store_load; [reflexivity| |]; rewrite Hvm.
  - apply can_write_granted.
  - apply can_read_granted.
Qed.

(** ** Runs of [main] *)

(** The run after a granted allocation. *)
Lemma main_granted pf argc argv w h :
  answer pf uint64_t 0x00007FF49E872000 w = Some h ->
  let a := allocate_mem pf uint64_t 0x00007FF49E872000 w in
  let v := peek uint64_t
             (apply_pokes (pokes_of (stdin w)) (put uint64_t (mem w) h 42)) h in
  exists w',
    main pf argc argv w =
      Run (events a ++ EvStore h uint64_t 42 :: report h 42
             ++ prompt_update :: EvGet (key_of (stdin w)) :: report h v
             ++ [prompt_exit; EvGet (key_of (tail (stdin w)))])
          (Done 0) w' /\
    fdt w' = fdt (after a) /\ vm w' = vm (after a).
Proof.
  intros H a v. subst a.
  destruct (allocate_mem_granted _ _ _ _ _ H) as (Hr & Hvm & Hmem & Hin).
  unfold main. rewrite main_addr_eq.
  unfold mbind at 1. unfold M_bind at 1. unfold bind at 1.
  destruct (allocate_mem pf uint64_t 0x00007FF49E872000 w) as [e o w1].
  cbn in Hr, Hvm, Hmem, Hin. subst o.
  unfold store, load, cout, cin_get, mbind, mret, M_bind, M_ret, bind, ret.
  cbn. rewrite Hvm. change (sizeof uint64_t) with 8.
  rewrite can_write_granted. cbn. rewrite Hvm, can_read_granted. cbn.
  rewrite Hvm, can_read_granted. cbn.
  rewrite Hmem, Hin, peek_put. change (wrap uint64_t 42) with 42.
  eexists. split; [reflexivity|]. cbn. auto.
Qed.

(** The run after a declined allocation, when the failure value points at
    nothing writable. *)
Lemma main_denied pf argc argv w :
  answer pf uint64_t 0x00007FF49E872000 w = None ->
  can_write (vm w) (sentinel pf) 8 = false ->
  let a := allocate_mem pf uint64_t 0x00007FF49E872000 w in
  main pf argc argv w =
    Run (events a ++ [EvStore (sentinel pf) uint64_t 42])
        (Fault (sentinel pf)) (after a).
Proof.
  intros H Hw a. subst a.
  destruct (allocate_mem_denied _ _ _ _ H) as (Hr & Hvm & Hmem & Hin).
  unfold main. rewrite main_addr_eq.
  unfold mbind at 1. unfold M_bind at 1. unfold bind at 1.
  destruct (allocate_mem pf uint64_t 0x00007FF49E872000 w) as [e o w1].
  cbn in Hr, Hvm, Hmem, Hin. subst o.
  unfold store, mbind, M_bind, bind.
  cbn. rewrite Hvm. change (sizeof uint64_t) with 8. rewrite Hw.
  reflexivity.
Qed.

(** Whatever the allocation returned, the next thing [main] does is the
    store through it: nothing in between looks at the pointer. *)
Lemma main_first_store pf argc argv w :
  exists p rest,
    result (allocate_mem pf uint64_t 0x00007FF49E872000 w) = Done p /\
    events (main pf argc argv w) =
      events (allocate_mem pf uint64_t 0x00007FF49E872000 w)
        ++ EvStore p uint64_t 42 :: rest.
Proof.
  destruct (allocate_mem_events pf uint64_t 0x00007FF49E872000 w) as (p & Hp & _).
  exists p. unfold main. rewrite main_addr_eq.
  rewrite (events_bind_done _ _ _ _ Hp).
  match goal with
  | |- context [events ((?m ≫= ?f) ?w1)] =>
      destruct (events_bind m f w1) as [rest ->]
  end.
  exists rest. split; [assumption|]. f_equal.
  unfold store. destruct (can_write _ _ _); reflexivity.
Qed.

(** Every run of [main] is one of three: the store faults, the first load
    faults, or the run completes. *)
Lemma main_cases pf argc argv w :
  let a := allocate_mem pf uint64_t 0x00007FF49E872000 w in
  exists p,
    result a = Done p /\
    ((main pf argc argv w =
        Run (events a ++ [EvStore p uint64_t 42]) (Fault p) (after a))
     \/ (exists w',
           main pf argc argv w =
             Run (events a ++ [EvStore p uint64_t 42; EvOut (OutPtr p);
                               EvOut (OutStr " - "); EvLoad p uint64_t 0])
                 (Fault p) w' /\ fdt w' = fdt (after a))
     \/ (exists v1 v2 k1 k2 w',
           main pf argc argv w =
             Run (events a ++ EvStore p uint64_t 42 :: report p v1
                    ++ prompt_update :: EvGet k1 :: report p v2
                    ++ [prompt_exit; EvGet k2])
                 (Done 0) w' /\ fdt w' = fdt (after a))).
Proof.
  intros a. subst a.
  destruct (allocate_mem_events pf uint64_t 0x00007FF49E872000 w) as (p & Hp & _).
  exists p. split; [assumption|].
  remember (main pf argc argv w) as r eqn:Er.
  unfold main in Er. rewrite main_addr_eq in Er.
  unfold mbind at 1 in Er. unfold M_bind at 1 in Er. unfold bind at 1 in Er.
  destruct (allocate_mem pf uint64_t 0x00007FF49E872000 w) as [e o w1].
  cbn in Hp. subst o.
  unfold store, load, cout, cin_get, mbind, mret, M_bind, M_ret, bind, ret in Er.
  cbn in Er. change (sizeof uint64_t) with 8 in Er.
  destruct (can_write (vm w1) p 8); cbn in Er; [|left; exact Er].
  destruct (can_read (vm w1) p 8) eqn:Hcr; cbn in Er;
    rewrite ?Hcr in Er; cbn in Er; subst r.
  - right. right. do 5 eexists. split; reflexivity.
  - right. left. eexists. split; reflexivity.
Qed.

(** No run of [main] changes the descriptor table after the allocation. *)
Lemma main_keeps_descriptors pf argc argv w :
  fdt (after (main pf argc argv w)) =
  fdt (after (allocate_mem pf uint64_t 0x00007FF49E872000 w)).
Proof.
  destruct (main_cases pf argc argv w)
    as (p & _ & [E | [(w' & E & F) | (v1 & v2 & k1 & k2 & w' & E & F)]]);
    rewrite E; cbn; auto.
Qed.

(** The system is asked for memory once in every run of [main], by the
    allocator. *)
Lemma main_calls pf argc argv w :
  let a := allocate_mem pf uint64_t 0x00007FF49E872000 w in
  requests (events (main pf argc argv w)) = requests (events a) /\
  mmap_flags (events (main pf argc argv w)) = mmap_flags (events a) /\
  mmap_fds (events (main pf argc argv w)) = mmap_fds (events a).
Proof.
  destruct (main_cases pf argc argv w)
    as (p & _ & [E | [(w' & E & F) | (v1 & v2 & k1 & k2 & w' & E & F)]]);
    cbn zeta; rewrite E; cbn [events];
    unfold requests, mmap_flags, mmap_fds; rewrite !omap_app; cbn;
    rewrite !app_nil_r; auto.
Qed.

(** * The claims *)

(** ** Success: the value written is the value read *)

(** C1. When the system grants the request [main] makes (for 8 bytes at
    [0x00007FF49E872000], readable and writable) and hands out the handle
    [h], and nothing pokes the memory during the pause, the run completes,
    writes 42 through [h] once, and both reads through [h], the one printed
    before the pause and the one printed after it, give 42. *)
Theorem main_reads_back_42 pf argc argv w h :
  answer pf uint64_t 0x00007FF49E872000 w = Some h ->
  pokes_of (stdin w) = [] ->
  let r := main pf argc argv w in
  result r = Done 0 /\
  requests (events r) = [Request 0x00007FF49E872000 8 true true] /\
  stores (events r) = [(h, 42)] /\
  loads (events r) = [(h, 42); (h, 42)] /\
  outputs (events r) =
    [OutPtr h; OutStr " - "; OutU64 42; OutChar LF;
     OutStr (endl "Press ENTER to update value");
     OutPtr h; OutStr " - "; OutU64 42; OutChar LF;
     OutStr (endl "Press ENTER to exit")].
Proof.
  intros H Hq r. subst r.
  destruct (main_granted pf argc argv w h H) as (w' & E & _).
  destruct (allocate_mem_observed pf uint64_t 0x00007FF49E872000 w)
    as (Hreq & Hout & Hld & Hst & _).
  rewrite E, Hq. cbn [events result].
  change (apply_pokes [] ?m) with m. rewrite peek_put.
  change (wrap uint64_t 42) with 42.
  unfold requests, stores, loads, outputs in *.
  rewrite !omap_app, Hreq, Hout, Hld, Hst.
  repeat split; reflexivity.
Qed.

Lemma main_reads_back_42_witness :
  answer Windows uint64_t 0x00007FF49E872000 world_ok = Some 0x00007FF49E872000 /\
  pokes_of (stdin world_ok) = [] /\
  loads (events (main Windows 1 [] world_ok)) =
    [(0x00007FF49E872000, 42); (0x00007FF49E872000, 42)].
Proof.
  split; [reflexivity|]. split; [reflexivity|].
  exact (proj1 (proj2 (proj2 (proj2
    (main_reads_back_42 Windows 1 [] world_ok 0x00007FF49E872000
       eq_refl eq_refl))))).
Defined.

(** ** Failure: the result is used unchecked *)

(** C2. [main] never tests what [allocate_mem] returned. When the system
    declines the request, the allocator returns the failure value of its
    platform and the very next event of the run is the store of 42 through
    that value. *)
Theorem main_dereferences_unchecked pf argc argv w :
  answer pf uint64_t 0x00007FF49E872000 w = None ->
  exists rest,
    result (allocate_mem pf uint64_t 0x00007FF49E872000 w) = Done (sentinel pf) /\
    events (main pf argc argv w) =
      events (allocate_mem pf uint64_t 0x00007FF49E872000 w)
        ++ EvStore (sentinel pf) uint64_t 42 :: rest.
Proof.
  intros H.
  destruct (allocate_mem_denied _ _ _ _ H) as (Hr & _).
  destruct (main_first_store pf argc argv w) as (p & rest & Hp & E).
  rewrite Hr in Hp. injection Hp as <-.
  exists rest. split; [exact Hr | exact E].
Qed.

Lemma main_dereferences_unchecked_witness :
  answer POSIX uint64_t 0x00007FF49E872000 world_denied = None /\
  exists rest,
    result (allocate_mem POSIX uint64_t 0x00007FF49E872000 world_denied)
      = Done (sentinel POSIX) /\
    events (main POSIX 1 [] world_denied) =
      events (allocate_mem POSIX uint64_t 0x00007FF49E872000 world_denied)
        ++ EvStore (sentinel POSIX) uint64_t 42 :: rest.
Proof.
  split; [reflexivity|].
  exact (main_dereferences_unchecked POSIX 1 [] world_denied eq_refl).
Defined.

(** C3, as the code has it. When the system declines the request and the
    failure value points at nothing writable, the allocator returns that
    value and [main] reports nothing: its one further action is the store
    of 42 through the failure value, where the run faults; nothing has been
    printed, no input has been read. *)
Theorem denied_run_faults pf argc argv w :
  answer pf uint64_t 0x00007FF49E872000 w = None ->
  can_write (vm w) (sentinel pf) 8 = false ->
  let a := allocate_mem pf uint64_t 0x00007FF49E872000 w in
  let r := main pf argc argv w in
  result a = Done (sentinel pf) /\
  result r = Fault (sentinel pf) /\
  events r = events a ++ [EvStore (sentinel pf) uint64_t 42] /\
  outputs (events r) = [] /\
  gets (events r) = [].
Proof.
  intros H Hw a r. subst a r.
  destruct (allocate_mem_denied _ _ _ _ H) as (Hr & _).
  destruct (allocate_mem_observed pf uint64_t 0x00007FF49E872000 w)
    as (_ & Hout & _ & _ & Hget).
  rewrite (main_denied pf argc argv w H Hw). cbn [events result].
  unfold outputs, gets in *. rewrite !omap_app, Hout, Hget.
  repeat split; try reflexivity. exact Hr.
Qed.

Lemma denied_run_faults_witness :
  answer Windows uint64_t 0x00007FF49E872000 world_denied = None /\
  can_write (vm world_denied) (sentinel Windows) 8 = false /\
  result (main Windows 1 [] world_denied) = Fault (sentinel Windows).
Proof.
  split; [reflexivity|]. split; [reflexivity|].
  exact (proj1 (proj2
    (denied_run_faults Windows 1 [] world_denied eq_refl eq_refl))).
Defined.

(** C3 as stated fails: on a declined request the Windows run stores
    through the null pointer, prints no diagnostic, and ends in a fault. *)
Lemma denied_run_on_windows :
  answer Windows uint64_t 0x00007FF49E872000 world_denied = None /\
  stores (events (main Windows 1 [] world_denied)) = [(Win32.NULL, 42)] /\
  outputs (events (main Windows 1 [] world_denied)) = [] /\
  result (main Windows 1 [] world_denied) = Fault Win32.NULL.
Proof. repeat split; vm_compute; reflexivity. Qed.

(** ** The failure value of each variant *)

(** C4, as the code has it. A declined request makes each variant return
    the failure value of its own platform primitive: the Windows variant
    the null pointer, the POSIX variant [MAP_FAILED], the all-ones address,
    which is not null. *)
Theorem failure_sentinels pf T address w :
  answer pf T address w = None ->
  result (allocate_mem pf T address w) = Done (sentinel pf) /\
  sentinel Windows = 0 /\
  sentinel POSIX = 2 ^ 64 - 1 /\
  sentinel POSIX <> sentinel Windows.
Proof.
  intros H. split; [apply (allocate_mem_denied _ _ _ _ H)|].
  repeat split; try reflexivity. discriminate.
Qed.

Lemma failure_sentinels_witness :
  answer POSIX uint32_t 4096 world_denied = None /\
  result (allocate_mem POSIX uint32_t 4096 world_denied) = Done (sentinel POSIX).
Proof.
  split; [reflexivity|].
  exact (proj1 (failure_sentinels POSIX uint32_t 4096 world_denied eq_refl)).
Defined.

(** C4 as stated fails: what the POSIX variant returns on a declined
    request is not null, and is not what the Windows variant returns. *)
Lemma posix_sentinel_not_null :
  answer POSIX uint64_t 0x00007FF49E872000 world_denied = None /\
  answer Windows uint64_t 0x00007FF49E872000 world_denied = None /\
  result (allocate_mem POSIX uint64_t 0x00007FF49E872000 world_denied)
    = Done 0xFFFFFFFFFFFFFFFF /\
  result (allocate_mem Windows uint64_t 0x00007FF49E872000 world_denied)
    = Done 0 /\
  0xFFFFFFFFFFFFFFFF <> Win32.NULL.
Proof. repeat split; try (vm_compute; reflexivity). discriminate. Qed.

(** ** Pauses and prints *)

(** C5, as the code has it. A run of [main] that completes has blocked on
    the console exactly twice: once between the two reports of the cell
    and once after the second, just before it returns. *)
Theorem complete_run_pauses_twice pf argc argv w r :
  result (main pf argc argv w) = Done r ->
  count_gets (events (main pf argc argv w)) = 2%nat /\
  exists p v1 v2 k1 k2,
    events (main pf argc argv w) =
      events (allocate_mem pf uint64_t 0x00007FF49E872000 w)
        ++ EvStore p uint64_t 42 :: report p v1
        ++ prompt_update :: EvGet k1 :: report p v2
        ++ [prompt_exit; EvGet k2].
Proof.
  intros Hr.
  destruct (allocate_mem_observed pf uint64_t 0x00007FF49E872000 w)
    as (_ & _ & _ & _ & Hget).
  destruct (main_cases pf argc argv w)
    as (p & _ & [E | [(w' & E & F) | (v1 & v2 & k1 & k2 & w' & E & F)]]);
    rewrite E in Hr |- *; cbn [events result] in *; try discriminate.
  split; [|eauto 6].
  unfold count_gets, gets in *. rewrite omap_app, Hget. reflexivity.
Qed.

Lemma complete_run_pauses_twice_witness :
  result (main POSIX 1 [] world_ok) = Done 0 /\
  count_gets (events (main POSIX 1 [] world_ok)) = 2%nat.
Proof.
  split; [reflexivity|].
  exact (proj1 (complete_run_pauses_twice POSIX 1 [] world_ok 0 eq_refl)).
Defined.

(** C5 as stated fails: a complete run blocks twice, not once. *)
Lemma main_pauses_twice_on_success :
  result (main Windows 1 [] world_ok) = Done 0 /\
  gets (events (main Windows 1 [] world_ok)) = [enter; enter] /\
  count_gets (events (main Windows 1 [] world_ok)) <> 1%nat.
Proof. repeat split; try (vm_compute; reflexivity). vm_compute. discriminate. Qed.

(** C6. After a granted allocation with handle [h], the run is: the
    allocator's calls, the store of 42 through [h], a report of [h] and of
    the value read through it, the first prompt and pause, a second report
    of [h] and of the value then read through it, the second prompt and
    pause. The system was asked for memory once, and [h] is what that one
    allocation returned. *)
Theorem main_prints_twice pf argc argv w h :
  answer pf uint64_t 0x00007FF49E872000 w = Some h ->
  let a := allocate_mem pf uint64_t 0x00007FF49E872000 w in
  let r := main pf argc argv w in
  let v := peek uint64_t
             (apply_pokes (pokes_of (stdin w)) (put uint64_t (mem w) h 42)) h in
  result a = Done h /\
  length (requests (events r)) = 1%nat /\
  events r =
    events a ++ EvStore h uint64_t 42 :: report h 42
      ++ prompt_update :: EvGet (key_of (stdin w)) :: report h v
      ++ [prompt_exit; EvGet (key_of (tail (stdin w)))] /\
  outputs (events r) =
    [OutPtr h; OutStr " - "; OutU64 42; OutChar LF;
     OutStr (endl "Press ENTER to update value");
     OutPtr h; OutStr " - "; OutU64 v; OutChar LF;
     OutStr (endl "Press ENTER to exit")].
Proof.
  intros H a r v. subst a r.
  destruct (allocate_mem_granted _ _ _ _ _ H) as (Hr & _).
  destruct (main_calls pf argc argv w) as (Hc & _).
  destruct (allocate_mem_observed pf uint64_t 0x00007FF49E872000 w)
    as (Hreq & Hout & _).
  destruct (main_granted pf argc argv w h H) as (w' & E & _).
  split; [exact Hr|]. split; [rewrite Hc, Hreq; reflexivity|].
  rewrite E. cbn [events]. split; [reflexivity|].
  unfold outputs in *. rewrite omap_app, Hout. reflexivity.
Qed.

Lemma main_prints_twice_witness :
  answer Windows uint64_t 0x00007FF49E872000 world_poked = Some 0x00007FF49E872000 /\
  outputs (events (main Windows 1 [] world_poked)) =
    [OutPtr 0x00007FF49E872000; OutStr " - "; OutU64 42; OutChar LF;
     OutStr (endl "Press ENTER to update value");
     OutPtr 0x00007FF49E872000; OutStr " - "; OutU64 7; OutChar LF;
     OutStr (endl "Press ENTER to exit")].
Proof.
  split; [reflexivity|].
  exact (proj2 (proj2 (proj2
    (main_prints_twice Windows 1 [] world_poked 0x00007FF49E872000 eq_refl)))).
Defined.

(** ** What the allocator asks for *)

(** C7, as the code has it. The allocator asks the system once, for
    [sizeof(T)] bytes (one value of the type) of readable and writable
    memory at the address it was given. These bytes lie in a single page,
    the one that contains the address, whenever they do not cross a page
    boundary. *)
Theorem allocate_mem_request pf T address w page :
  0 < page ->
  address mod page + sizeof T <= page ->
  requests (events (allocate_mem pf T address w)) =
    [Request address (sizeof T) true true] /\
  (address + sizeof T - 1) / page = address / page /\
  pages_spanned page address (sizeof T) = 1.
Proof.
  intros Hp Hfit.
  split; [apply allocate_mem_observed|].
  apply pages_spanned_one; [assumption| |assumption].
  destruct T; reflexivity.
Qed.

Lemma allocate_mem_request_witness :
  requests (events (allocate_mem POSIX uint64_t 0x00007FF49E872000 world_ok)) =
    [Request 0x00007FF49E872000 8 true true] /\
  (0x00007FF49E872000 + 8 - 1) / 4096 = 0x00007FF49E872000 / 4096 /\
  pages_spanned 4096 0x00007FF49E872000 8 = 1.
Proof.
  apply (allocate_mem_request POSIX uint64_t 0x00007FF49E872000 world_ok 4096).
  - reflexivity.
  - vm_compute. discriminate.
Defined.

(** The request of [main] stays within one page for every page size that
    is a multiple of 8. *)
Lemma main_request_one_page pf argc argv w page :
  0 < page -> (8 | page) ->
  requests (events (main pf argc argv w)) =
    [Request 0x00007FF49E872000 8 true true] /\
  pages_spanned page 0x00007FF49E872000 8 = 1.
Proof.
  intros Hp Hd.
  destruct (main_calls pf argc argv w) as (-> & _).
  split; [apply allocate_mem_observed|].
  apply pages_spanned_one; [assumption|lia|].
  apply aligned_fits; [lia|assumption| |assumption].
  exists 0xFFE93D0E400. reflexivity.
Qed.

(** C7 as stated fails: the size passed is that of the type, not of a
    page, and eight bytes at 4092 touch two pages of 4096 bytes. *)
Lemma request_straddles_pages :
  requests (events (allocate_mem Windows uint64_t 4092 world_ok)) =
    [Request 4092 8 true true] /\
  pages_spanned 4096 4092 8 = 2 /\
  4092 / 4096 <> (4092 + 8 - 1) / 4096 /\
  sizeof uint64_t <> 4096.
Proof. repeat split; try (vm_compute; reflexivity); vm_compute; discriminate. Qed.

(** ** The descriptor of the POSIX variant *)

(** C8. Where the null device can be opened, the POSIX variant opens
    ["/dev/null"] with [O_RDWR] on the lowest free descriptor [fd], passes
    [fd] to [mmap] as the file to map, and returns with [fd] open: the
    table has one open descriptor more than before. Nothing [main] does
    afterwards changes the table, so the descriptor is open when the run
    ends, however it ends. *)
Theorem posix_descriptor_left_open T address argc argv w :
  openable w "/dev/null" Posix.O_RDWR = true ->
  let a := allocate_mem POSIX T address w in
  let r := main POSIX argc argv w in
  (exists (fd : nat) ret,
     events a =
       [EvCall (SysOpen "/dev/null" Posix.O_RDWR) (Z.of_nat fd);
        EvCall (SysMmap address (sizeof T)
                        (Z.lor Posix.PROT_WRITE Posix.PROT_READ) 0
                        (Z.of_nat fd) 0) ret] /\
     (forall g, fdt w !! fd <> Some (Some g)) /\
     fdt (after a) !! fd = Some (Some (File "/dev/null" Posix.O_RDWR))) /\
  open_count (fdt (after a)) = S (open_count (fdt w)) /\
  (forall n g, fdt w !! n = Some (Some g) -> fdt (after a) !! n = Some (Some g)) /\
  fdt (after r) = fdt (after (allocate_mem POSIX uint64_t 0x00007FF49E872000 w)) /\
  open_count (fdt (after r)) = S (open_count (fdt w)).
Proof.
  intros Hopen a r. subst a r.
  assert (forall T' address',
             fdt (after (allocate_mem POSIX T' address' w)) =
             snd (fd_alloc (fdt w) devnull)) as Hfdt.
  { intros T' address'. unfold devnull. unfold_prog. rewrite Hopen. cbn.
    destruct (place _ _ _); reflexivity. }
  destruct (allocate_mem_events POSIX T address w) as (ret & _ & E).
  unfold opening, issued, devnull_fd in E. rewrite Hopen in E.
  rewrite main_keeps_descriptors, !Hfdt.
  split; [|split; [|split; [|split]]].
  - exists (fst (fd_alloc (fdt w) devnull)), ret.
    split; [exact E|]. split.
    + intros g. apply fd_alloc_free.
    + apply fd_alloc_installed.
  - apply fd_alloc_count.
  - intros n g. apply fd_alloc_keeps.
  - reflexivity.
  - apply fd_alloc_count.
Qed.

Lemma posix_descriptor_left_open_witness :
  openable world_ok "/dev/null" Posix.O_RDWR = true /\
  open_count (fdt (after (main POSIX 1 [] world_ok))) = 4%nat.
Proof.
  split; [reflexivity|].
  exact (proj2 (proj2 (proj2 (proj2
    (posix_descriptor_left_open uint64_t 0x00007FF49E872000 1 [] world_ok
       eq_refl))))).
Defined.

(** ** Command line *)

(** C9. [main] does not look at [argc] or [argv]: in the same world (the
    same answers of the system, the same console) two invocations that
    differ only in their arguments have the same run: events, result and
    final state. *)
Theorem main_ignores_arguments pf argc argv argc' argv' w :
  main pf argc argv w = main pf argc' argv' w.
Proof. reflexivity. Qed.

(** ** The flags of the mapping *)

(** C10. The POSIX variant calls [mmap] once, with flags 0: [MAP_FIXED] is
    not set and neither is a mapping type ([MAP_SHARED], [MAP_PRIVATE]).
    The address is a hint: whatever base the system chooses is what the
    allocator returns, and only the system's refusal makes it return
    [MAP_FAILED]. The same holds for the one call [main] makes. *)
Theorem posix_mmap_flags_zero T address argc argv w :
  let a := allocate_mem POSIX T address w in
  mmap_flags (events a) = [0] /\
  mmap_flags (events (main POSIX argc argv w)) = [0] /\
  Forall (fun fl => has_flag fl Posix.MAP_FIXED = false
                    /\ has_flag fl Posix.MAP_SHARED = false
                    /\ has_flag fl Posix.MAP_PRIVATE = false)
         (mmap_flags (events a)) /\
  result a = Done (default Posix.MAP_FAILED (answer POSIX T address w)).
Proof.
  intros a. subst a.
  destruct (allocate_mem_posix_observed T address w) as (Hfl & _).
  destruct (main_calls POSIX argc argv w) as (_ & Hm & _).
  rewrite Hm, Hfl.
  destruct (allocate_mem_posix_observed uint64_t 0x00007FF49E872000 w) as (-> & _).
  split; [reflexivity|]. split; [reflexivity|]. split.
  - repeat constructor.
  - apply (allocate_mem_result POSIX).
Qed.

(** A system that places the mapping elsewhere: the allocator returns that
    place, and [main] goes on to use it. *)
Example posix_mapping_moved :
  result (allocate_mem POSIX uint64_t 0x00007FF49E872000 world_moved)
    = Done 0x10000 /\
  stores (events (main POSIX 1 [] world_moved)) = [(0x10000, 42)] /\
  result (main POSIX 1 [] world_moved) = Done 0.
Proof. repeat split; vm_compute; reflexivity. Qed.

(** * Further properties *)

(** ** Pokes *)

Section Pokes.
Implicit Types (m : gmap Z Z) (ps : list (Z * Z)).

Lemma apply_pokes_app ps qs m :
  apply_pokes (ps ++ qs) m = apply_pokes qs (apply_pokes ps m).
Proof. unfold apply_pokes. apply fold_left_app. Qed.

Lemma byte_at_apply_pokes ps m a :
  Forall (fun ab => fst ab <> a) ps ->
  byte_at (apply_pokes ps m) a = byte_at m a.
Proof.
  unfold apply_pokes. intros H. revert m.
  induction H as [|[a' b] ps Hne _ IH]; intros m; [reflexivity|].
  cbn [fold_left fst snd]. rewrite IH. unfold byte_at.
  cbn in Hne. rewrite lookup_insert_ne by exact Hne. reflexivity.
Qed.

Lemma read_bytes_ext m1 m2 a n :
  (forall i, a <= i < a + Z.of_nat n -> byte_at m1 i = byte_at m2 i) ->
  read_bytes m1 a n = read_bytes m2 a n.
Proof.
  revert a. induction n as [|n IH]; intros a H; [reflexivity|].
  cbn [read_bytes]. f_equal.
  - apply H. lia.
  - apply IH. intros i Hi. apply H. lia.
Qed.

Lemma peek_apply_pokes_misses T ps m p :
  misses p (sizeof T) ps = true ->
  peek T (apply_pokes ps m) p = peek T m p.
Proof.
  intros H. unfold peek. f_equal. apply read_bytes_ext. intros i Hi.
  apply byte_at_apply_pokes.
  unfold misses in H. rewrite forallb_forall in H.
  apply Forall_forall. intros ab Hab. apply list_elem_of_In, H in Hab.
  assert (Z.of_nat (Z.to_nat (sizeof T)) = sizeof T) as E by (destruct T; reflexivity).
  apply orb_true_iff in Hab as [Hlt | Hge];
    [apply Z.ltb_lt in Hlt | apply Z.leb_le in Hge]; lia.
Qed.

Lemma le_bytes_range n x : Forall (fun b => b mod 256 = b) (le_bytes n x).
Proof.
  revert x. induction n as [|n IH]; intros x; constructor.
  - apply Z.mod_mod. lia.
  - apply IH.
Qed.

Lemma apply_pokes_pokes_at bs m a :
  Forall (fun b => b mod 256 = b) bs ->
  apply_pokes (pokes_at a bs) m = write_bytes m a bs.
Proof.
  unfold apply_pokes. intros H. revert m a.
  induction H as [|b bs Hb _ IH]; intros m a; [reflexivity|].
  cbn [pokes_at fold_left write_bytes fst snd]. rewrite Hb. apply IH.
Qed.

(** Writing a value from outside, byte by byte, is storing it. *)
Lemma apply_pokes_overwrite T p x m :
  apply_pokes (overwrite T p x) m = put T m p x.
Proof. apply apply_pokes_pokes_at, le_bytes_range. Qed.

Lemma byte_at_write_outside m a bs a' :
  a' < a \/ a + Z.of_nat (length bs) <= a' ->
  byte_at (write_bytes m a bs) a' = byte_at m a'.
Proof.
  revert m a. induction bs as [|b bs IH]; intros m a H; [reflexivity|].
  cbn [write_bytes]. cbn [length] in H. rewrite IH by lia.
  unfold byte_at. rewrite lookup_insert_ne by lia. reflexivity.
Qed.
End Pokes.

(** ** The state a run leaves *)

(** After a granted allocation: the world in which [main] returns. *)
Lemma main_granted_after pf argc argv w h :
  answer pf uint64_t 0x00007FF49E872000 w = Some h ->
  let r := main pf argc argv w in
  result r = Done 0 /\
  vm (after r) = Region h 8 true true :: vm w /\
  mem (after r) =
    apply_pokes (pokes_of (tail (stdin w)))
      (apply_pokes (pokes_of (stdin w)) (put uint64_t (mem w) h 42)) /\
  stdin (after r) = tail (tail (stdin w)).
Proof.
  intros H r. subst r.
  destruct (allocate_mem_granted _ _ _ _ _ H) as (Hr & Hvm & Hmem & Hin).
  remember (main pf argc argv w) as r eqn:Er.
  unfold main in Er. rewrite main_addr_eq in Er.
  unfold mbind at 1 in Er. unfold M_bind at 1 in Er. unfold bind at 1 in Er.
  destruct (allocate_mem pf uint64_t 0x00007FF49E872000 w) as [e o w1].
  cbn in Hr, Hvm, Hmem, Hin. subst o.
  unfold store, load, cout, cin_get, mbind, mret, M_bind, M_ret, bind, ret in Er.
  cbn in Er. rewrite Hvm in Er. change (sizeof uint64_t) with 8 in *.
  rewrite can_write_granted in Er. cbn in Er.
  rewrite Hvm, can_read_granted in Er. cbn in Er.
  rewrite Hvm, can_read_granted in Er. cbn in Er.
  subst r. cbn. rewrite Hvm, Hmem, Hin. auto.
Qed.

(** ** Round trip through a granted allocation *)

(** X1. For every element type, address and value: when the system grants
    the allocation with handle [h], storing [x] through what [allocate_mem]
    returns and loading through it again gives [x] as a value of the type,
    that is [x] reduced modulo [2^(8 * sizeof T)], and [x] itself when it
    fits. *)
Theorem granted_cell_round_trip pf T address x w h :
  answer pf T address w = Some h ->
  let r := (p ← allocate_mem pf T address; store T p x;; load T p) w in
  result r = Done (wrap T x) /\
  stores (events r) = [(h, x)] /\
  loads (events r) = [(h, wrap T x)] /\
  0 <= wrap T x < 2 ^ (8 * sizeof T) /\
  (0 <= x < 2 ^ (8 * sizeof T) -> wrap T x = x).
Proof.
  intros H r. subst r.
  destruct (allocate_mem_granted _ _ _ _ _ H) as (Hr & Hvm & _).
  destruct (allocate_mem_observed pf T address w) as (_ & _ & Hld & Hst & _).
  destruct (allocate_mem pf T address w) as [e o w1] eqn:E.
  cbn in Hr, Hvm, Hld, Hst. subst o.
  rewrite (bind_done _ _ _ _ _ _ E).
  rewrite store_load by (rewrite Hvm; auto using can_write_granted, can_read_granted).
  cbn [events result]. unfold stores, loads in *. rewrite !omap_app, Hst, Hld.
  repeat split; try reflexivity.
  - apply Z.mod_pos_bound. destruct T; reflexivity.
  - apply Z.mod_pos_bound. destruct T; reflexivity.
  - intros Hx. unfold wrap. apply Z.mod_small. exact Hx.
Qed.

Lemma granted_cell_round_trip_witness :
  answer POSIX uint8_t 0x5000 world_ok = Some 0x5000 /\
  result ((p ← allocate_mem POSIX uint8_t 0x5000;
           store uint8_t p 300;; load uint8_t p) world_ok) = Done 44.
Proof.
  split; [reflexivity|].
  exact (proj1 (granted_cell_round_trip POSIX uint8_t 0x5000 300 world_ok
                  0x5000 eq_refl)).
Defined.

(** ** What the pause can and cannot change *)

(** X2. After a granted allocation with handle [h], pokes of the first
    pause that all miss the eight bytes at [h] change nothing in what is
    read and printed: both reports show 42. *)
Theorem main_unaffected_by_other_pokes pf argc argv w h :
  answer pf uint64_t 0x00007FF49E872000 w = Some h ->
  misses h 8 (pokes_of (stdin w)) = true ->
  let r := main pf argc argv w in
  loads (events r) = [(h, 42); (h, 42)] /\
  outputs (events r) =
    [OutPtr h; OutStr " - "; OutU64 42; OutChar LF;
     OutStr (endl "Press ENTER to update value");
     OutPtr h; OutStr " - "; OutU64 42; OutChar LF;
     OutStr (endl "Press ENTER to exit")].
Proof.
  intros H Hq r. subst r.
  destruct (main_granted pf argc argv w h H) as (w' & E & _).
  destruct (allocate_mem_observed pf uint64_t 0x00007FF49E872000 w)
    as (_ & Hout & Hld & _).
  rewrite E. cbn [events].
  rewrite (peek_apply_pokes_misses uint64_t) by exact Hq.
  rewrite peek_put. change (wrap uint64_t 42) with 42.
  unfold loads, outputs in *. rewrite !omap_app, Hout, Hld.
  split; reflexivity.
Qed.

Lemma main_unaffected_by_other_pokes_witness :
  answer Windows uint64_t 0x00007FF49E872000 world_nearby
    = Some 0x00007FF49E872000 /\
  misses 0x00007FF49E872000 8 (pokes_of (stdin world_nearby)) = true /\
  loads (events (main Windows 1 [] world_nearby)) =
    [(0x00007FF49E872000, 42); (0x00007FF49E872000, 42)].
Proof.
  split; [reflexivity|]. split; [reflexivity|].
  exact (proj1 (main_unaffected_by_other_pokes Windows 1 [] world_nearby
                  0x00007FF49E872000 eq_refl eq_refl)).
Defined.

(** X3. After a granted allocation with handle [h], when another process
    ends the first pause's pokes by writing the value [x] over the cell,
    the first report shows 42 and the second shows [x] (as a 64-bit
    value): [main] stores once and does not store again after the pause. *)
Theorem main_shows_external_write pf argc argv w h ps x :
  answer pf uint64_t 0x00007FF49E872000 w = Some h ->
  pokes_of (stdin w) = ps ++ overwrite uint64_t h x ->
  let r := main pf argc argv w in
  result r = Done 0 /\
  stores (events r) = [(h, 42)] /\
  loads (events r) = [(h, 42); (h, wrap uint64_t x)] /\
  outputs (events r) =
    [OutPtr h; OutStr " - "; OutU64 42; OutChar LF;
     OutStr (endl "Press ENTER to update value");
     OutPtr h; OutStr " - "; OutU64 (wrap uint64_t x); OutChar LF;
     OutStr (endl "Press ENTER to exit")].
Proof.
  intros H Hq r. subst r.
  destruct (main_granted pf argc argv w h H) as (w' & E & _).
  destruct (allocate_mem_observed pf uint64_t 0x00007FF49E872000 w)
    as (_ & Hout & Hld & Hst & _).
  rewrite E. cbn [events result].
  rewrite Hq, apply_pokes_app, apply_pokes_overwrite, peek_put.
  unfold stores, loads, outputs in *. rewrite !omap_app, Hout, Hld, Hst.
  repeat split; reflexivity.
Qed.

Lemma main_shows_external_write_witness :
  answer POSIX uint64_t 0x00007FF49E872000 world_rewritten
    = Some 0x00007FF49E872000 /\
  pokes_of (stdin world_rewritten)
    = [(5, 1)] ++ overwrite uint64_t 0x00007FF49E872000 1000 /\
  loads (events (main POSIX 1 [] world_rewritten)) =
    [(0x00007FF49E872000, 42); (0x00007FF49E872000, 1000)].
Proof.
  split; [reflexivity|]. split; [reflexivity|].
  exact (proj1 (proj2 (proj2
    (main_shows_external_write POSIX 1 [] world_rewritten 0x00007FF49E872000
       [(5, 1)] 1000 eq_refl eq_refl)))).
Defined.

(** ** The console *)

(** X4. After a granted allocation the run completes with exit value 0
    whatever the console brings. It reads from the console exactly twice,
    taking the first two entries in order and leaving the rest unread. *)
Theorem main_consumes_two_reads pf argc argv w h :
  answer pf uint64_t 0x00007FF49E872000 w = Some h ->
  let r := main pf argc argv w in
  result r = Done 0 /\
  gets (events r) = [key_of (stdin w); key_of (tail (stdin w))] /\
  stdin (after r) = drop 2 (stdin w).
Proof.
  intros H r. subst r.
  destruct (main_granted_after pf argc argv w h H) as (Hr & _ & _ & Hin).
  destruct (main_granted pf argc argv w h H) as (w' & E & _).
  destruct (allocate_mem_observed pf uint64_t 0x00007FF49E872000 w)
    as (_ & _ & _ & _ & Hget).
  split; [exact Hr|]. split.
  - rewrite E. cbn [events]. unfold gets in *. rewrite omap_app, Hget. reflexivity.
  - rewrite Hin. destruct (stdin w) as [|q [|q' i]]; reflexivity.
Qed.

Lemma main_consumes_two_reads_witness :
  answer Windows uint64_t 0x00007FF49E872000 world_rewritten
    = Some 0x00007FF49E872000 /\
  stdin (after (main Windows 1 [] world_rewritten)) = [].
Proof.
  split; [reflexivity|].
  exact (proj2 (proj2 (main_consumes_two_reads Windows 1 [] world_rewritten
                         0x00007FF49E872000 eq_refl))).
Defined.

(** X5. At the end of input the program does not wait: with an empty
    console and a granted allocation, both reads return [EOF] at once, both
    reports are printed with 42, and the run completes. *)
Theorem main_at_end_of_input pf argc argv w h :
  answer pf uint64_t 0x00007FF49E872000 w = Some h ->
  stdin w = [] ->
  let r := main pf argc argv w in
  result r = Done 0 /\
  gets (events r) = [EOF; EOF] /\
  outputs (events r) =
    [OutPtr h; OutStr " - "; OutU64 42; OutChar LF;
     OutStr (endl "Press ENTER to update value");
     OutPtr h; OutStr " - "; OutU64 42; OutChar LF;
     OutStr (endl "Press ENTER to exit")].
Proof.
  intros H Hin r. subst r.
  destruct (main_granted pf argc argv w h H) as (w' & E & _).
  destruct (allocate_mem_observed pf uint64_t 0x00007FF49E872000 w)
    as (_ & Hout & _ & _ & Hget).
  rewrite E, Hin. cbn [events result tail].
  change (pokes_of []) with (@nil (Z * Z)). change (key_of []) with EOF.
  change (apply_pokes [] ?m) with m. rewrite peek_put.
  change (wrap uint64_t 42) with 42.
  unfold gets, outputs in *. rewrite !omap_app, Hout, Hget.
  repeat split; reflexivity.
Qed.

Lemma main_at_end_of_input_witness :
  answer POSIX uint64_t 0x00007FF49E872000 world_eof = Some 0x00007FF49E872000 /\
  stdin world_eof = [] /\
  gets (events (main POSIX 1 [] world_eof)) = [EOF; EOF].
Proof.
  split; [reflexivity|]. split; [reflexivity|].
  exact (proj1 (proj2 (main_at_end_of_input POSIX 1 [] world_eof
                         0x00007FF49E872000 eq_refl eq_refl))).
Defined.

(** X6. The characters typed do not matter: [main] discards what
    [std::cin.get()] returns. After a granted allocation, a console that
    differs only in its characters gives the same result, the same memory
    accesses and the same output. *)
Theorem main_ignores_keys pf argc argv w h f :
  answer pf uint64_t 0x00007FF49E872000 w = Some h ->
  let r := main pf argc argv w in
  let r' := main pf argc argv (set_stdin w (rekey f (stdin w))) in
  result r' = result r /\
  stores (events r') = stores (events r) /\
  loads (events r') = loads (events r) /\
  outputs (events r') = outputs (events r) /\
  mem (after r') = mem (after r).
Proof.
  intros H r r'. subst r r'.
  set (w2 := set_stdin w (rekey f (stdin w))).
  assert (answer pf uint64_t 0x00007FF49E872000 w2 = Some h) as H2 by exact H.
  assert (pokes_of (stdin w2) = pokes_of (stdin w)) as Hp1.
  { cbn. destruct (stdin w) as [|q i]; reflexivity. }
  assert (pokes_of (tail (stdin w2)) = pokes_of (tail (stdin w))) as Hp2.
  { cbn. destruct (stdin w) as [|q [|q' i]]; reflexivity. }
  destruct (main_granted_after pf argc argv w h H) as (Hr & _ & Hm & _).
  destruct (main_granted_after pf argc argv w2 h H2) as (Hr2 & _ & Hm2 & _).
  destruct (main_granted pf argc argv w h H) as (w' & E & _).
  destruct (main_granted pf argc argv w2 h H2) as (w2' & E2 & _).
  destruct (allocate_mem_observed pf uint64_t 0x00007FF49E872000 w)
    as (_ & Hout & Hld & Hst & _).
  destruct (allocate_mem_observed pf uint64_t 0x00007FF49E872000 w2)
    as (_ & Hout2 & Hld2 & Hst2 & _).
  split; [congruence|].
  rewrite Hm, Hm2, Hp1, Hp2.
  rewrite E, E2. cbn [events]. rewrite Hp1.
  unfold stores, loads, outputs in *.
  rewrite !omap_app, Hout, Hld, Hst, Hout2, Hld2, Hst2.
  repeat split; reflexivity.
Qed.

Lemma main_ignores_keys_witness :
  answer Windows uint64_t 0x00007FF49E872000 world_poked
    = Some 0x00007FF49E872000 /\
  outputs (events (main Windows 1 []
                     (set_stdin world_poked
                        (rekey (fun _ => 120) (stdin world_poked))))) =
  outputs (events (main Windows 1 [] world_poked)).
Proof.
  split; [reflexivity|].
  exact (proj1 (proj2 (proj2 (proj2
    (main_ignores_keys Windows 1 [] world_poked 0x00007FF49E872000
       (fun _ => 120) eq_refl))))).
Defined.

(** ** Memory at the end of a run *)

(** X7. [main] writes nothing but the cell. After a granted allocation
    with handle [h] and pauses without pokes, at the end of the run the
    cell holds 42 and every byte outside the eight bytes at [h] is what it
    was at the start. *)
Theorem main_writes_only_the_cell pf argc argv w h :
  answer pf uint64_t 0x00007FF49E872000 w = Some h ->
  pokes_of (stdin w) = [] ->
  pokes_of (tail (stdin w)) = [] ->
  let r := main pf argc argv w in
  peek uint64_t (mem (after r)) h = 42 /\
  forall a, a < h \/ h + 8 <= a ->
            byte_at (mem (after r)) a = byte_at (mem w) a.
Proof.
  intros H Hq1 Hq2 r. subst r.
  destruct (main_granted_after pf argc argv w h H) as (_ & _ & Hm & _).
  rewrite Hm, Hq1, Hq2. change (apply_pokes [] ?m) with m.
  split; [apply (peek_put uint64_t)|].
  intros a Ha. unfold put. apply byte_at_write_outside.
  rewrite length_le_bytes. change (sizeof uint64_t) with 8. lia.
Qed.

Lemma main_writes_only_the_cell_witness :
  answer Windows uint64_t 0x00007FF49E872000 world_ok
    = Some 0x00007FF49E872000 /\
  peek uint64_t (mem (after (main Windows 1 [] world_ok))) 0x00007FF49E872000
    = 42.
Proof.
  split; [reflexivity|].
  exact (proj1 (main_writes_only_the_cell Windows 1 [] world_ok
                  0x00007FF49E872000 eq_refl eq_refl eq_refl)).
Defined.

(** X8. Nothing is ever released. After a granted allocation with handle
    [h], when [main] returns the eight bytes at [h] are still readable and
    writable, and every byte that was accessible at the start still is. *)
Theorem main_never_releases pf argc argv w h :
  answer pf uint64_t 0x00007FF49E872000 w = Some h ->
  let r := main pf argc argv w in
  can_read (vm (after r)) h 8 = true /\
  can_write (vm (after r)) h 8 = true /\
  (forall a, readable_at (vm w) a = true -> readable_at (vm (after r)) a = true) /\
  (forall a, writable_at (vm w) a = true -> writable_at (vm (after r)) a = true).
Proof.
  intros H r. subst r.
  destruct (main_granted_after pf argc argv w h H) as (_ & Hvm & _).
  rewrite Hvm.
  split; [apply can_read_granted|]. split; [apply can_write_granted|].
  split; intros a Ha; unfold readable_at, writable_at in *;
    cbn [existsb]; rewrite Ha; apply orb_true_r.
Qed.

Lemma main_never_releases_witness :
  answer POSIX uint64_t 0x00007FF49E872000 world_ok
    = Some 0x00007FF49E872000 /\
  can_write (vm (after (main POSIX 1 [] world_ok))) 0x00007FF49E872000 8 = true.
Proof.
  split; [reflexivity|].
  exact (proj1 (proj2 (main_never_releases POSIX 1 [] world_ok
                         0x00007FF49E872000 eq_refl))).
Defined.

(** ** Failure paths of the allocator *)

(** X9. The POSIX variant does not check what [open] returned. When the
    null device cannot be opened, [mmap] is called all the same, with
    descriptor -1; the descriptor table is left as it was and the
    allocator returns what that [mmap] call returns. *)
Theorem posix_open_failure_unchecked T address w :
  openable w "/dev/null" Posix.O_RDWR = false ->
  let a := allocate_mem POSIX T address w in
  exists ret,
    events a =
      [EvCall (SysOpen "/dev/null" Posix.O_RDWR) (-1);
       EvCall (SysMmap address (sizeof T)
                       (Z.lor Posix.PROT_WRITE Posix.PROT_READ) 0 (-1) 0) ret] /\
    result a = Done ret /\
    fdt (after a) = fdt w.
Proof.
  intros Hopen a. subst a.
  destruct (allocate_mem_events POSIX T address w) as (ret & Hr & E).
  unfold opening, issued, devnull_fd in E. rewrite Hopen in E.
  exists ret. split; [exact E|]. split; [exact Hr|].
  unfold_prog. rewrite Hopen. cbn. destruct (place _ _ _); reflexivity.
Qed.

Lemma posix_open_failure_unchecked_witness :
  openable world_no_devnull "/dev/null" Posix.O_RDWR = false /\
  exists ret,
    events (allocate_mem POSIX uint64_t 0x00007FF49E872000 world_no_devnull) =
      [EvCall (SysOpen "/dev/null" Posix.O_RDWR) (-1);
       EvCall (SysMmap 0x00007FF49E872000 (sizeof uint64_t)
                       (Z.lor Posix.PROT_WRITE Posix.PROT_READ) 0 (-1) 0) ret] /\
    result (allocate_mem POSIX uint64_t 0x00007FF49E872000 world_no_devnull)
      = Done ret /\
    fdt (after (allocate_mem POSIX uint64_t 0x00007FF49E872000 world_no_devnull))
      = fdt world_no_devnull.
Proof.
  split; [reflexivity|].
  exact (posix_open_failure_unchecked uint64_t 0x00007FF49E872000
           world_no_devnull eq_refl).
Defined.

(** X10. A failed allocation leaks the descriptor too. When the null
    device opens but the system declines the mapping, the POSIX variant
    returns [MAP_FAILED], maps nothing, and still leaves one more
    descriptor open than before. *)
Theorem posix_failed_allocation_leaks T address w :
  openable w "/dev/null" Posix.O_RDWR = true ->
  answer POSIX T address w = None ->
  let a := allocate_mem POSIX T address w in
  result a = Done Posix.MAP_FAILED /\
  vm (after a) = vm w /\
  open_count (fdt (after a)) = S (open_count (fdt w)) /\
  fdt (after a) !! fst (fd_alloc (fdt w) devnull) = Some (Some devnull).
Proof.
  intros Hopen H a. subst a.
  destruct (allocate_mem_denied _ _ _ _ H) as (Hr & Hvm & _).
  split; [exact Hr|]. split; [exact Hvm|].
  assert (fdt (after (allocate_mem POSIX T address w)) =
          snd (fd_alloc (fdt w) devnull)) as ->.
  { unfold devnull. unfold_prog. rewrite Hopen. cbn.
    destruct (place _ _ _); reflexivity. }
  split; [apply fd_alloc_count | apply fd_alloc_installed].
Qed.

Lemma posix_failed_allocation_leaks_witness :
  openable world_denied "/dev/null" Posix.O_RDWR = true /\
  answer POSIX uint64_t 0x00007FF49E872000 world_denied = None /\
  open_count (fdt (after (allocate_mem POSIX uint64_t 0x00007FF49E872000
                            world_denied))) = 4%nat.
Proof.
  split; [reflexivity|]. split; [reflexivity|].
  exact (proj1 (proj2 (proj2
    (posix_failed_allocation_leaks uint64_t 0x00007FF49E872000 world_denied
       eq_refl eq_refl)))).
Defined.

(** ** What the allocator leaves alone *)


Lemma allocate_mem_regions pf T address w :
  vm (after (allocate_mem pf T address w)) = vm w \/
  exists h, vm (after (allocate_mem pf T address w)) =
            Region h (sizeof T) true true :: vm w.
Proof.
  destruct (answer pf T address w) as [h|] eqn:H.
  - right. exists h. apply (allocate_mem_granted _ _ _ _ _ H).
  - left. apply (allocate_mem_denied _ _ _ _ H).
Qed.

Lemma allocate_mem_windows_descriptors T address w :
  fdt (after (allocate_mem Windows T address w)) = fdt w.
Proof. unfold_prog. cbn. destruct (place w (vm w) _); reflexivity. Qed.

(** X11. The allocator touches neither the contents of memory nor the
    console, prints nothing, and takes no access away: every byte that was
    readable or writable before the call is so after it. The Windows
    variant also leaves the descriptor table as it was. *)
Theorem allocate_mem_frame pf T address w :
  let a := allocate_mem pf T address w in
  mem (after a) = mem w /\
  stdin (after a) = stdin w /\
  outputs (events a) = [] /\
  (forall b, readable_at (vm w) b = true -> readable_at (vm (after a)) b = true) /\
  (forall b, writable_at (vm w) b = true -> writable_at (vm (after a)) b = true) /\
  fdt (after (allocate_mem Windows T address w)) = fdt w.
Proof.
  intros a. subst a.
  assert (mem (after (allocate_mem pf T address w)) = mem w /\
          stdin (after (allocate_mem pf T address w)) = stdin w) as [Hm Hi].
  { destruct (answer pf T address w) as [h|] eqn:H.
    - destruct (allocate_mem_granted _ _ _ _ _ H) as (_ & _ & ? & ?). auto.
    - destruct (allocate_mem_denied _ _ _ _ H) as (_ & _ & ? & ?). auto. }
  destruct (allocate_mem_observed pf T address w) as (_ & Hout & _).
  split; [exact Hm|]. split; [exact Hi|]. split; [exact Hout|].
  split; [|split; [|apply allocate_mem_windows_descriptors]].
  - intros b Hb. destruct (allocate_mem_regions pf T address w) as [-> | [h ->]];
      [exact Hb|]. unfold readable_at in *. cbn [existsb]. rewrite Hb.
    apply orb_true_r.
  - intros b Hb. destruct (allocate_mem_regions pf T address w) as [-> | [h ->]];
      [exact Hb|]. unfold writable_at in *. cbn [existsb]. rewrite Hb.
    apply orb_true_r.
Qed.

(** ** Calling the allocator again and again *)




(** ** Declined requests *)

(** Eight bytes at the last address run past the end of the address
    space, so they are never all writable. *)
Lemma can_write_past_end v :
  within_address_space v = true -> can_write v Posix.MAP_FAILED 8 = false.
Proof.
  intros Hv. unfold can_write.
  destruct (forallb (writable_at v) (seqZ Posix.MAP_FAILED 8)) eqn:E;
    [|reflexivity].
  rewrite forallb_forall in E.
  assert (writable_at v (2 ^ 64) = true) as Hw.
  { apply E. apply list_elem_of_In, elem_of_seqZ.
    change Posix.MAP_FAILED with (2 ^ 64 - 1). lia. }
  unfold writable_at in Hw. apply existsb_exists in Hw as (r & Hr & Hin).
  unfold within_address_space in Hv. rewrite forallb_forall in Hv.
  apply Hv, Z.leb_le in Hr.
  apply andb_true_iff in Hin as (_ & Hin). unfold in_region in Hin.
  apply andb_true_iff in Hin as (_ & Hlt). apply Z.ltb_lt in Hlt. lia.
Qed.

(** X13. On POSIX a declined request always ends in a fault, whatever is
    mapped: [main] stores eight bytes through [MAP_FAILED], the last
    address, and these cannot all lie in the address space. Nothing is
    printed and no input is read before the fault. *)
Theorem posix_denied_run_always_faults argc argv w :
  answer POSIX uint64_t 0x00007FF49E872000 w = None ->
  within_address_space (vm w) = true ->
  let r := main POSIX argc argv w in
  result r = Fault Posix.MAP_FAILED /\
  stores (events r) = [(Posix.MAP_FAILED, 42)] /\
  outputs (events r) = [] /\
  gets (events r) = [].
Proof.
  intros H Hv r. subst r.
  destruct (allocate_mem_observed POSIX uint64_t 0x00007FF49E872000 w)
    as (_ & Hout & _ & Hst & Hget).
  rewrite (main_denied POSIX argc argv w H (can_write_past_end _ Hv)).
  cbn [events result]. unfold stores, outputs, gets in *.
  rewrite !omap_app, Hout, Hst, Hget. repeat split; reflexivity.
Qed.

Lemma posix_denied_run_always_faults_witness :
  answer POSIX uint64_t 0x00007FF49E872000 world_denied_mapped = None /\
  within_address_space (vm world_denied_mapped) = true /\
  result (main POSIX 1 [] world_denied_mapped) = Fault Posix.MAP_FAILED.
Proof.
  split; [reflexivity|]. split; [reflexivity|].
  exact (proj1 (posix_denied_run_always_faults 1 [] world_denied_mapped
                  eq_refl eq_refl)).
Defined.

(** X14. A run that faults on a declined request has changed nothing in
    the process but, on POSIX, the descriptor table: memory contents, the
    mapped regions and the unread console are as at the start, and on
    Windows the descriptor table is too. *)
Theorem denied_run_changes_nothing pf argc argv w :
  answer pf uint64_t 0x00007FF49E872000 w = None ->
  can_write (vm w) (sentinel pf) 8 = false ->
  let r := main pf argc argv w in
  mem (after r) = mem w /\
  vm (after r) = vm w /\
  stdin (after r) = stdin w /\
  fdt (after (main Windows argc argv w)) = fdt w.
Proof.
  intros H Hw r. subst r.
  destruct (allocate_mem_denied _ _ _ _ H) as (_ & Hvm & Hmem & Hin).
  rewrite (main_denied pf argc argv w H Hw). cbn [after].
  split; [exact Hmem|]. split; [exact Hvm|]. split; [exact Hin|].
  rewrite main_keeps_descriptors. apply allocate_mem_windows_descriptors.
Qed.

Lemma denied_run_changes_nothing_witness :
  answer Windows uint64_t 0x00007FF49E872000 world_denied_mapped = None /\
  can_write (vm world_denied_mapped) (sentinel Windows) 8 = false /\
  vm (after (main Windows 1 [] world_denied_mapped)) = vm world_denied_mapped.
Proof.
  split; [reflexivity|]. split; [reflexivity|].
  exact (proj1 (proj2 (denied_run_changes_nothing Windows 1 []
                         world_denied_mapped eq_refl eq_refl))).
Defined.
